(** * Macro-controlled logging (mcl.h): level gate

    The header [mcl.h] is a family of preprocessor macros.  Each macro is
    embedded as a Rocq function from the build-time macro definitions (and
    the macro's arguments) to the C fragment it expands to; the fragments
    are given a small executable semantics over the per-system threshold
    cells [__<name>_log_lvl] and the record of [LOG_ACTION] invocations. *)

From Stdlib Require Import ZArith Lia.
From stdpp Require Import base option gmap strings list.

Local Open Scope Z_scope.

(** ** Build-time configuration *)

(** What the build passes with -D (or leaves undefined), together with the
    target's choice of signedness for plain [char]. *)
Record defines := {
  D_DYNAMIC_LOG_LVL : option Z;
  D_DYNAMIC_LOG_LVL_MAX : option Z;
  D_DYNAMIC_LOG_LVL_MIN : option Z;
  char_unsigned : bool
}.

Definition LOG_LVL_FATAL : Z := 0.
Definition LOG_LVL_ERROR : Z := 1.
Definition LOG_LVL_WARN : Z := 2.
Definition LOG_LVL_MSG : Z := 3.
Definition LOG_LVL_INFO : Z := 4.
Definition LOG_LVL_VERBOSE : Z := 5.
Definition LOG_LVL_DEBUG : Z := 6.
Definition LOG_LVL_TRACE : Z := 7.
Definition LOG_LVL_NONE : Z := -1.
Definition LOG_LVL_ALL : Z := 0x7f.

(** [#ifndef X] / [#define X default] / [#endif] *)
Definition DYNAMIC_LOG_LVL (d : defines) : Z :=
  default 1 (D_DYNAMIC_LOG_LVL d).
Definition DYNAMIC_LOG_LVL_MAX (d : defines) : Z :=
  default LOG_LVL_VERBOSE (D_DYNAMIC_LOG_LVL_MAX d).
Definition DYNAMIC_LOG_LVL_MIN (d : defines) : Z :=
  default LOG_LVL_WARN (D_DYNAMIC_LOG_LVL_MIN d).

(** Truth of an integer in an [#if] condition. *)
Definition pp_true (z : Z) : bool := negb (z =? 0).

(** [#if DYNAMIC_LOG_LVL_MIN > DYNAMIC_LOG_LVL_MAX] / [#error ...]:
    [Some msg] when including the header stops the build. *)
Definition mcl_h_error (d : defines) : option string :=
  if DYNAMIC_LOG_LVL_MIN d >? DYNAMIC_LOG_LVL_MAX d
  then Some "DYNAMIC_LOG_LVL_MIN cannot be greater than DYNAMIC_LOG_LVL_MAX"%string
  else None.

(** ** The storage type [typedef char __log_lvl_t] *)

Definition char_min (d : defines) : Z := if char_unsigned d then 0 else -128.
Definition char_max (d : defines) : Z := if char_unsigned d then 255 else 127.

(** Conversion of an [int] value to [__log_lvl_t] on assignment and
    initialization: reduction modulo 256 into the range of [char]. *)
Definition to_log_lvl_t (d : defines) (z : Z) : Z :=
  if char_unsigned d then z mod 256 else (z + 128) mod 256 - 128.

(** ** C fragments produced by the macros *)

Definition args := string.

(** Expressions as parsed.  An operand is understood with the parentheses
    its position requires; [EParen] records parentheses that are written,
    which matters where a macro pastes an argument into a longer
    expression. *)
Inductive expr :=
| EConst (z : Z)
| EVar (name : string)                 (* __ ## name ## _log_lvl *)
| EGt (a b : expr)
| ELt (a b : expr)
| EGe (a b : expr)
| ECond (c a b : expr)                 (* c ? a : b *)
| EParen (e : expr)                    (* (e) *)
| EAssign (name : string) (e : expr).  (* (__ ## name ## _log_lvl = e) *)

Inductive stmt :=
| SEmpty                               (* the macro expands to no tokens *)
| SAction (lvl : Z) (a : args)         (* { LOG_ACTION(lvl, args); } *)
| SIf (c : expr) (body : stmt)         (* { if(c) { body } } *)
| SExpr (e : expr).                    (* e; *)

Inductive toplevel :=
| TNothing                             (* the macro expands to no tokens *)
| TExtern (name : string)              (* extern __log_lvl_t __name_log_lvl; *)
| TDefine (name : string) (init : expr). (* __log_lvl_t __name_log_lvl = init; *)

(** ** The macros *)

Inductive level :=
| FATAL | ERROR | WARN | MSG | INFO | VERBOSE | DEBUG | TRACE.

Definition LOG_LVL (L : level) : Z :=
  match L with
  | FATAL => LOG_LVL_FATAL | ERROR => LOG_LVL_ERROR | WARN => LOG_LVL_WARN
  | MSG => LOG_LVL_MSG | INFO => LOG_LVL_INFO | VERBOSE => LOG_LVL_VERBOSE
  | DEBUG => LOG_LVL_DEBUG | TRACE => LOG_LVL_TRACE
  end.

(** The eight logging macros are the same text up to the level constant:
<<
  #if DYNAMIC_LOG_LVL_MAX >= LOG_LVL_X
  #if DYNAMIC_LOG_LVL && (DYNAMIC_LOG_LVL_MIN <= LOG_LVL_X)
  #define LOG_X(name, args...) { if(__name_log_lvl >= LOG_LVL_X) { LOG_ACTION(LOG_LVL_X, args); } }
  #else
  #define LOG_X(name, args...) { LOG_ACTION(LOG_LVL_X, args); }
  #endif
  #else
  #define LOG_X(name, args...)
  #endif
>> *)
Definition LOG_at (lvl : Z) (d : defines) (name : string) (a : args) : stmt :=
  if DYNAMIC_LOG_LVL_MAX d >=? lvl then
    if pp_true (DYNAMIC_LOG_LVL d) && (DYNAMIC_LOG_LVL_MIN d <=? lvl) then
      SIf (EGe (EVar name) (EConst lvl)) (SAction lvl a)
    else
      SAction lvl a
  else
    SEmpty.

Definition LOG_FATAL := LOG_at LOG_LVL_FATAL.
Definition LOG_ERROR := LOG_at LOG_LVL_ERROR.
Definition LOG_WARN := LOG_at LOG_LVL_WARN.
Definition LOG_MSG := LOG_at LOG_LVL_MSG.
Definition LOG_INFO := LOG_at LOG_LVL_INFO.
Definition LOG_VERBOSE := LOG_at LOG_LVL_VERBOSE.
Definition LOG_DEBUG := LOG_at LOG_LVL_DEBUG.
Definition LOG_TRACE := LOG_at LOG_LVL_TRACE.

(** A call site at severity [L]. *)
Definition LOG (L : level) : defines -> string -> args -> stmt :=
  match L with
  | FATAL => LOG_FATAL | ERROR => LOG_ERROR | WARN => LOG_WARN
  | MSG => LOG_MSG | INFO => LOG_INFO | VERBOSE => LOG_VERBOSE
  | DEBUG => LOG_DEBUG | TRACE => LOG_TRACE
  end.

(** The parse of the text [lvl rest], where [rest] starts with an operator
    that binds tighter than [?:] and [k r] is the parse of [r rest] for an
    operand [r]: when [lvl] is a conditional written without parentheses,
    [c ? a : b], the text reads [c ? a : (b rest)], so [rest] attaches to
    its last operand. *)
Fixpoint paste_tail (k : expr -> expr) (lvl : expr) : expr :=
  match lvl with
  | ECond c a b => ECond c a (paste_tail k b)
  | _ => k lvl
  end.

(** [(lvl > DYNAMIC_LOG_LVL_MAX ? DYNAMIC_LOG_LVL_MAX :
      (lvl < DYNAMIC_LOG_LVL_MIN ? DYNAMIC_LOG_LVL_MIN : lvl))];
    the argument is substituted textually, three times, and without
    parentheses of its own. *)
Definition __LOG_LVL_CLAMP (d : defines) (lvl : expr) : expr :=
  EParen
    (paste_tail
       (fun r =>
          ECond (EGt r (EConst (DYNAMIC_LOG_LVL_MAX d)))
                (EConst (DYNAMIC_LOG_LVL_MAX d))
                (EParen
                   (paste_tail
                      (fun r' =>
                         ECond (ELt r' (EConst (DYNAMIC_LOG_LVL_MIN d)))
                               (EConst (DYNAMIC_LOG_LVL_MIN d))
                               lvl)
                      lvl)))
       lvl).

Definition DECLARE_LOG_SYSTEM (d : defines) (name : string) : toplevel :=
  if pp_true (DYNAMIC_LOG_LVL d) then TExtern name else TNothing.

Definition DEFINE_LOG_SYSTEM (d : defines) (name : string) (lvl : expr)
  : toplevel :=
  if pp_true (DYNAMIC_LOG_LVL d)
  then TDefine name (__LOG_LVL_CLAMP d lvl)
  else TNothing.

Definition GET_LOG_SYSTEM_LVL (d : defines) (name : string) : expr :=
  if pp_true (DYNAMIC_LOG_LVL d)
  then EParen (EVar name)
  else EConst (DYNAMIC_LOG_LVL_MAX d).

(** [None]: the macro expands to no tokens. *)
Definition SET_LOG_SYSTEM_LVL (d : defines) (name : string) (lvl : expr)
  : option expr :=
  if pp_true (DYNAMIC_LOG_LVL d)
  then Some (EAssign name (__LOG_LVL_CLAMP d lvl))
  else None.

(** The default [LOG_ACTION]: the stream the [switch] selects
    ([true] for [stderr], [false] for [stdout]). *)
Definition LOG_ACTION_to_stderr (lvl : Z) : bool :=
  if lvl =? LOG_LVL_FATAL then true
  else if lvl =? LOG_LVL_ERROR then true
  else if lvl =? LOG_LVL_WARN then true
  else false.

(** ** Execution *)

(** The threshold cells that exist, and the [LOG_ACTION] invocations made so
    far, oldest first. *)
Record state := {
  vars : gmap string Z;
  calls : list (Z * args)
}.

Definition b2i (b : bool) : Z := if b then 1 else 0.

(** Evaluation of an expression; [None] where a cell that was never defined
    is named (such a program does not link). *)
Fixpoint eval (d : defines) (e : expr) (s : state) : option (Z * state) :=
  match e with
  | EConst z => Some (z, s)
  | EVar name =>
      match vars s !! name with
      | Some v => Some (v, s)
      | None => None
      end
  | EGt a b =>
      match eval d a s with
      | Some (x, s1) =>
          match eval d b s1 with
          | Some (y, s2) => Some (b2i (x >? y), s2)
          | None => None
          end
      | None => None
      end
  | ELt a b =>
      match eval d a s with
      | Some (x, s1) =>
          match eval d b s1 with
          | Some (y, s2) => Some (b2i (x <? y), s2)
          | None => None
          end
      | None => None
      end
  | EGe a b =>
      match eval d a s with
      | Some (x, s1) =>
          match eval d b s1 with
          | Some (y, s2) => Some (b2i (x >=? y), s2)
          | None => None
          end
      | None => None
      end
  | ECond c a b =>
      match eval d c s with
      | Some (x, s1) => if x =? 0 then eval d b s1 else eval d a s1
      | None => None
      end
  | EParen e => eval d e s
  | EAssign name e =>
      match eval d e s with
      | Some (x, s1) =>
          match vars s1 !! name with
          | Some _ =>
              let c := to_log_lvl_t d x in
              Some (c, {| vars := <[name := c]> (vars s1); calls := calls s1 |})
          | None => None
          end
      | None => None
      end
  end.

Definition invoke (lvl : Z) (a : args) (s : state) : state :=
  {| vars := vars s; calls := calls s ++ [(lvl, a)] |}.

Fixpoint exec (d : defines) (c : stmt) (s : state) : option state :=
  match c with
  | SEmpty => Some s
  | SAction lvl a => Some (invoke lvl a s)
  | SIf e body =>
      match eval d e s with
      | Some (x, s1) => if x =? 0 then Some s1 else exec d body s1
      | None => None
      end
  | SExpr e =>
      match eval d e s with
      | Some (_, s1) => Some s1
      | None => None
      end
  end.

(** ** Whole programs *)

(** Level arguments written at a use of [DEFINE_LOG_SYSTEM] or
    [SET_LOG_SYSTEM_LVL]: an integer constant, the current level of a
    system, a conditional of such, or one of these in parentheses. *)
Inductive arg :=
| AConst (z : Z)
| AGet (name : string)                 (* GET_LOG_SYSTEM_LVL(name) *)
| ACond (c a b : arg)                  (* c ? a : b *)
| AParen (x : arg).                    (* (x) *)

Fixpoint arg_expr (d : defines) (x : arg) : expr :=
  match x with
  | AConst z => EConst z
  | AGet name => GET_LOG_SYSTEM_LVL d name
  | ACond c a b => ECond (arg_expr d c) (arg_expr d a) (arg_expr d b)
  | AParen x => EParen (arg_expr d x)
  end.

(** File-scope uses of the header in the translation units of a program. *)
Inductive item :=
| IDeclare (name : string)             (* DECLARE_LOG_SYSTEM(name); *)
| IDefine (name : string) (lvl : arg). (* DEFINE_LOG_SYSTEM(name, lvl); *)

Definition expand_item (d : defines) (i : item) : toplevel :=
  match i with
  | IDeclare name => DECLARE_LOG_SYSTEM d name
  | IDefine name lvl => DEFINE_LOG_SYSTEM d name (arg_expr d lvl)
  end.

Inductive build_result :=
| BuildError (msg : string)
| Built (s : state).

Definition no_cells : state := {| vars := ∅; calls := [] |}.

(** Static initialization of the defined cells.  An initializer is a
    constant expression, and two definitions of one cell do not link. *)
Fixpoint link (d : defines) (ts : list toplevel) (m : gmap string Z)
  : build_result :=
  match ts with
  | [] => Built {| vars := m; calls := [] |}
  | TNothing :: ts' => link d ts' m
  | TExtern _ :: ts' => link d ts' m
  | TDefine name init :: ts' =>
      match m !! name with
      | Some _ => BuildError "multiple definition"
      | None =>
          match eval d init no_cells with
          | Some (x, _) => link d ts' (<[name := to_log_lvl_t d x]> m)
          | None => BuildError "initializer element is not constant"
          end
      end
  end.

(** Including the header and linking the program's file-scope items.
    Whether a use inside a function body has a declaration in scope is the
    compiler's check on that body and is not part of this step; a use that
    names a system without a cell does not run ([eval] gives [None]). *)
Definition build (d : defines) (items : list item) : build_result :=
  match mcl_h_error d with
  | Some msg => BuildError msg
  | None => link d (map (expand_item d) items) ∅
  end.

(** Uses of the header inside function bodies, as statements. *)
Inductive op :=
| OLog (L : level) (name : string) (a : args)   (* LOG_X(name, args); *)
| OSet (name : string) (lvl : arg)     (* SET_LOG_SYSTEM_LVL(name, lvl); *)
| OGet (name : string).                (* GET_LOG_SYSTEM_LVL(name); *)

Definition expand_op (d : defines) (o : op) : stmt :=
  match o with
  | OLog L name a => LOG L d name a
  | OSet name lvl =>
      match SET_LOG_SYSTEM_LVL d name (arg_expr d lvl) with
      | Some e => SExpr e
      | None => SEmpty
      end
  | OGet name => SExpr (GET_LOG_SYSTEM_LVL d name)
  end.

Definition step (d : defines) (o : op) (s : state) : option state :=
  exec d (expand_op d o) s.

(** States a built program can be in. *)
Inductive reachable (d : defines) : state -> Prop :=
| reach_built items s :
    build d items = Built s -> reachable d s
| reach_step o s s' :
    reachable d s -> step d o s = Some s' -> reachable d s'.

(** A level argument that is a conditional written without parentheses. *)
Definition bare_conditional (x : arg) : bool :=
  match x with
  | ACond _ _ _ => true
  | _ => false
  end.




(** Expressions that assign to no cell. *)
Fixpoint pure (e : expr) : bool :=
  match e with
  | EConst _ | EVar _ => true
  | EGt a b | ELt a b | EGe a b => pure a && pure b
  | ECond c a b => pure c && pure a && pure b
  | EParen e => pure e
  | EAssign _ _ => false
  end.

(** ** Notions used by the specification *)

(** The usual clamp of [v] into [[lo, hi]]. *)
Definition clamp (v lo hi : Z) : Z := Z.max lo (Z.min v hi).

(** Both bounds are values of [__log_lvl_t]. *)
Definition bounds_fit_char (d : defines) : Prop :=
  char_min d <= DYNAMIC_LOG_LVL_MIN d /\ DYNAMIC_LOG_LVL_MAX d <= char_max d.

(** Every threshold cell holds a value of [__log_lvl_t]. *)
Definition in_char (d : defines) (m : gmap string Z) : Prop :=
  forall name t, m !! name = Some t -> char_min d <= t <= char_max d.


(** What the code of [__LOG_LVL_CLAMP] computes on a value. *)
Definition clamp_val (d : defines) (v : Z) : Z :=
  if v >? DYNAMIC_LOG_LVL_MAX d then DYNAMIC_LOG_LVL_MAX d
  else if v <? DYNAMIC_LOG_LVL_MIN d then DYNAMIC_LOG_LVL_MIN d
  else v.

(** The header as shipped: nothing passed with -D, [char] signed. *)
Definition default_defines : defines :=
  {| D_DYNAMIC_LOG_LVL := None;
     D_DYNAMIC_LOG_LVL_MAX := None;
     D_DYNAMIC_LOG_LVL_MIN := None;
     char_unsigned := false |}.

(** The shipped header with [-DDYNAMIC_LOG_LVL=0]. *)
Definition static_defines : defines :=
  {| D_DYNAMIC_LOG_LVL := Some 0;
     D_DYNAMIC_LOG_LVL_MAX := None;
     D_DYNAMIC_LOG_LVL_MIN := None;
     char_unsigned := false |}.

(** A build with the bounds the wrong way round:
    [-DDYNAMIC_LOG_LVL_MIN=LOG_LVL_VERBOSE -DDYNAMIC_LOG_LVL_MAX=LOG_LVL_WARN]. *)
Definition inverted_defines : defines :=
  {| D_DYNAMIC_LOG_LVL := None;
     D_DYNAMIC_LOG_LVL_MAX := Some LOG_LVL_WARN;
     D_DYNAMIC_LOG_LVL_MIN := Some LOG_LVL_VERBOSE;
     char_unsigned := false |}.

(** A target whose [char] is unsigned, built with
    [-DDYNAMIC_LOG_LVL_MIN=LOG_LVL_NONE]. *)
Definition unsigned_defines : defines :=
  {| D_DYNAMIC_LOG_LVL := None;
     D_DYNAMIC_LOG_LVL_MAX := None;
     D_DYNAMIC_LOG_LVL_MIN := Some LOG_LVL_NONE;
     char_unsigned := true |}.

(** The values the header offers for a bound: a level or a sentinel. *)
Definition is_bound (z : Z) : Prop :=
  z = LOG_LVL_NONE \/ z = LOG_LVL_ALL \/ exists L, z = LOG_LVL L.

(** Running [c] in [s] makes exactly one more call of the output action,
    [LOG_ACTION(lvl, a)], and nothing else of the record changes. *)
Definition invokes (d : defines) (c : stmt) (s : state) (lvl : Z) (a : args)
  : Prop :=
  exists s', exec d c s = Some s' /\ calls s' = calls s ++ [(lvl, a)].

(** Running [c] in [s] makes no call of the output action. *)
Definition silent (d : defines) (c : stmt) (s : state) : Prop :=
  exists s', exec d c s = Some s' /\ calls s' = calls s.

(** The two streams the default [LOG_ACTION] prints to, as the messages
    written to each, oldest first. *)
Record streams := {
  stderr : list args;
  stdout : list args
}.

(** The default [LOG_ACTION(lvl, args)]:
<<
  switch(lvl) {
    case LOG_LVL_FATAL: case LOG_LVL_ERROR: case LOG_LVL_WARN:
      fprintf(stderr, args); break;
    default:
      fprintf(stdout, args); break;
  }
>> *)
Definition LOG_ACTION (lvl : Z) (a : args) (o : streams) : streams :=
  if LOG_ACTION_to_stderr lvl
  then {| stderr := stderr o ++ [a]; stdout := stdout o |}
  else {| stderr := stderr o; stdout := stdout o ++ [a] |}.

(** What a record of action calls prints under the default action. *)
Definition printed (cs : list (Z * args)) : streams :=
  fold_left (fun o c => LOG_ACTION (fst c) (snd c) o) cs
            {| stderr := []; stdout := [] |}.

(** A call at a level from [LOG_LVL_FATAL] up to [LOG_LVL_WARN]. *)
Definition warn_or_lower (c : Z * args) : bool :=
  (0 <=? fst c) && (fst c <=? LOG_LVL_WARN).

(** The state after the assignment [SET_LOG_SYSTEM_LVL(name, v)] expands
    to has run on a defined cell. *)
Definition set_cell (d : defines) (name : string) (v : Z) (s : state) : state :=
  {| vars := <[name := to_log_lvl_t d (clamp_val d v)]> (vars s);
     calls := calls s |}.

(** Two uses of the header one after the other. *)
Definition step2 (d : defines) (o1 o2 : op) (s : state) : option state :=
  match step d o1 s with
  | Some s1 => step d o2 s1
  | None => None
  end.

(** ** Basic facts *)

Lemma LOG_eq L : LOG L = LOG_at (LOG_LVL L).
Proof. by destruct L. Qed.

Lemma mcl_h_ok d :
  mcl_h_error d = None <-> DYNAMIC_LOG_LVL_MIN d <= DYNAMIC_LOG_LVL_MAX d.
Proof.
  unfold mcl_h_error.
  destruct (Z.gtb_spec (DYNAMIC_LOG_LVL_MIN d) (DYNAMIC_LOG_LVL_MAX d));
    split; intros; try done; lia.
Qed.

Lemma clamp_val_clamp d v :
  DYNAMIC_LOG_LVL_MIN d <= DYNAMIC_LOG_LVL_MAX d ->
  clamp_val d v = clamp v (DYNAMIC_LOG_LVL_MIN d) (DYNAMIC_LOG_LVL_MAX d).
Proof.
  intros Hle. unfold clamp_val, clamp.
  destruct (Z.gtb_spec v (DYNAMIC_LOG_LVL_MAX d));
    destruct (Z.ltb_spec v (DYNAMIC_LOG_LVL_MIN d)); lia.
Qed.

Lemma clamp_val_range d v :
  DYNAMIC_LOG_LVL_MIN d <= DYNAMIC_LOG_LVL_MAX d ->
  DYNAMIC_LOG_LVL_MIN d <= clamp_val d v <= DYNAMIC_LOG_LVL_MAX d.
Proof. intros Hle. rewrite clamp_val_clamp by done. unfold clamp. lia. Qed.

Lemma clamp_val_id d v :
  DYNAMIC_LOG_LVL_MIN d <= v <= DYNAMIC_LOG_LVL_MAX d -> clamp_val d v = v.
Proof.
  intros Hv. unfold clamp_val.
  destruct (Z.gtb_spec v (DYNAMIC_LOG_LVL_MAX d));
    destruct (Z.ltb_spec v (DYNAMIC_LOG_LVL_MIN d)); lia.
Qed.

Lemma to_log_lvl_t_id d z :
  char_min d <= z <= char_max d -> to_log_lvl_t d z = z.
Proof.
  unfold char_min, char_max, to_log_lvl_t.
  destruct (char_unsigned d); intros Hz.
  - apply Z.mod_small. lia.
  - rewrite Z.mod_small; lia.
Qed.

Lemma to_log_lvl_t_range d z :
  char_min d <= to_log_lvl_t d z <= char_max d.
Proof.
  unfold char_min, char_max, to_log_lvl_t.
  destruct (char_unsigned d).
  - pose proof (Z.mod_pos_bound z 256). lia.
  - pose proof (Z.mod_pos_bound (z + 128) 256). lia.
Qed.

Lemma to_log_lvl_t_clamp_val d v :
  bounds_fit_char d ->
  DYNAMIC_LOG_LVL_MIN d <= DYNAMIC_LOG_LVL_MAX d ->
  to_log_lvl_t d (clamp_val d v) = clamp_val d v.
Proof.
  intros [Hlo Hhi] Hle. apply to_log_lvl_t_id.
  pose proof (clamp_val_range d v Hle). lia.
Qed.

(** An expression without assignments leaves the state as it is. *)
Lemma eval_pure d e : forall s v s',
  pure e = true -> eval d e s = Some (v, s') -> s' = s.
Proof.
  induction e as [z | n | a IHa b IHb | a IHa b IHb | a IHa b IHb
                 | c IHc a IHa b IHb | e IHe | n e IHe];
    intros s v s'; simpl; try done.
  - by intros _ [= _ <-].
  - intros _. destruct (vars s !! n); [by intros [= _ <-] | done].
  - intros [Ha Hb]%andb_prop.
    destruct (eval d a s) as [[x s1] |] eqn:Ea; [| done].
    apply IHa in Ea as ->; [| done].
    destruct (eval d b s) as [[y s2] |] eqn:Eb; [| done].
    apply IHb in Eb as ->; [| done]. by intros [= _ <-].
  - intros [Ha Hb]%andb_prop.
    destruct (eval d a s) as [[x s1] |] eqn:Ea; [| done].
    apply IHa in Ea as ->; [| done].
    destruct (eval d b s) as [[y s2] |] eqn:Eb; [| done].
    apply IHb in Eb as ->; [| done]. by intros [= _ <-].
  - intros [Ha Hb]%andb_prop.
    destruct (eval d a s) as [[x s1] |] eqn:Ea; [| done].
    apply IHa in Ea as ->; [| done].
    destruct (eval d b s) as [[y s2] |] eqn:Eb; [| done].
    apply IHb in Eb as ->; [| done]. by intros [= _ <-].
  - intros [[Hc Ha]%andb_prop Hb]%andb_prop.
    destruct (eval d c s) as [[x s1] |] eqn:Ec; [| done].
    apply IHc in Ec as ->; [| done].
    destruct (x =? 0); [by apply IHb | by apply IHa].
  - apply IHe.
Qed.

Lemma pure_paste_tail k e :
  (forall r, pure r = true -> pure (k r) = true) ->
  pure e = true -> pure (paste_tail k e) = true.
Proof.
  intros Hk.
  induction e as [z | n | a IHa b IHb | a IHa b IHb | a IHa b IHb
                 | c IHc a IHa b IHb | e IHe | n e IHe];
    intros He; try by apply Hk.
  simpl in *. apply andb_prop in He as [Hca Hb]. by rewrite Hca, IHb.
Qed.

Lemma pure_CLAMP d e : pure e = true -> pure (__LOG_LVL_CLAMP d e) = true.
Proof.
  intros He. unfold __LOG_LVL_CLAMP. cbn [pure].
  apply pure_paste_tail; [| done]. intros r Hr. cbn [pure].
  rewrite Hr. simpl. apply pure_paste_tail; [| done].
  intros r' Hr'. cbn [pure]. by rewrite Hr', He.
Qed.

Lemma pure_arg_expr d x : pure (arg_expr d x) = true.
Proof.
  induction x as [z | n | c IHc a IHa b IHb | x IH]; simpl; try done.
  - unfold GET_LOG_SYSTEM_LVL. by destruct (pp_true _).
  - by rewrite IHc, IHa, IHb.
Qed.

Lemma eval_arg d x s v s' :
  eval d (arg_expr d x) s = Some (v, s') -> s' = s.
Proof. apply eval_pure, pure_arg_expr. Qed.

(** A guarded argument is pasted as one operand. *)
Lemma paste_tail_guarded d x k :
  bare_conditional x = false ->
  paste_tail k (arg_expr d x) = k (arg_expr d x).
Proof.
  destruct x as [z | n | c a b | x]; simpl; try done.
  intros _. unfold GET_LOG_SYSTEM_LVL. by destruct (pp_true _).
Qed.

(** The clamp evaluates its argument up to three times; on an argument
    pasted as one operand and without side effects it yields [clamp_val]
    of the argument's value. *)
Lemma eval_CLAMP d e s v :
  (forall k, paste_tail k e = k e) ->
  eval d e s = Some (v, s) ->
  eval d (__LOG_LVL_CLAMP d e) s = Some (clamp_val d v, s).
Proof.
  intros Hp He. unfold clamp_val, __LOG_LVL_CLAMP. rewrite !Hp.
  cbn [eval]. rewrite He.
  destruct (v >? DYNAMIC_LOG_LVL_MAX d); simpl; [done |].
  rewrite He.
  destruct (v <? DYNAMIC_LOG_LVL_MIN d); simpl; done.
Qed.

Lemma eval_CLAMP_None d e s :
  (forall k, paste_tail k e = k e) ->
  eval d e s = None ->
  eval d (__LOG_LVL_CLAMP d e) s = None.
Proof.
  intros Hp He. unfold __LOG_LVL_CLAMP. rewrite !Hp. cbn [eval].
  by rewrite He.
Qed.

Lemma eval_CLAMP_arg d x s :
  bare_conditional x = false ->
  eval d (__LOG_LVL_CLAMP d (arg_expr d x)) s
  = match eval d (arg_expr d x) s with
    | Some (v, _) => Some (clamp_val d v, s)
    | None => None
    end.
Proof.
  intros Hx.
  assert (forall k, paste_tail k (arg_expr d x) = k (arg_expr d x)) as Hp
    by (intros k; by apply paste_tail_guarded).
  destruct (eval d (arg_expr d x) s) as [[v s1] |] eqn:He.
  - pose proof (eval_arg _ _ _ _ _ He) as ->. by apply eval_CLAMP.
  - by apply eval_CLAMP_None.
Qed.

Lemma eval_CLAMP_const d lvl s :
  eval d (__LOG_LVL_CLAMP d (EConst lvl)) s = Some (clamp_val d lvl, s).
Proof. by apply eval_CLAMP. Qed.

Lemma state_eta s : {| vars := vars s; calls := calls s |} = s.
Proof. by destruct s. Qed.

(** ** Execution of the expansions *)

Lemma exec_LOG_at_checked d lvl name a s t :
  pp_true (DYNAMIC_LOG_LVL d) = true ->
  DYNAMIC_LOG_LVL_MIN d <= lvl <= DYNAMIC_LOG_LVL_MAX d ->
  vars s !! name = Some t ->
  exec d (LOG_at lvl d name a) s
  = Some (if t >=? lvl then invoke lvl a s else s).
Proof.
  intros Hdyn [Hlo Hhi] Ht. unfold LOG_at.
  destruct (Z.geb_spec (DYNAMIC_LOG_LVL_MAX d) lvl); [| lia].
  rewrite Hdyn. destruct (Z.leb_spec (DYNAMIC_LOG_LVL_MIN d) lvl); [| lia].
  simpl. rewrite Ht. by destruct (t >=? lvl).
Qed.

Lemma LOG_at_hardwired d lvl name a :
  lvl <= DYNAMIC_LOG_LVL_MAX d ->
  pp_true (DYNAMIC_LOG_LVL d) = false \/ lvl < DYNAMIC_LOG_LVL_MIN d ->
  LOG_at lvl d name a = SAction lvl a.
Proof.
  intros Hhi Hor. unfold LOG_at.
  destruct (Z.geb_spec (DYNAMIC_LOG_LVL_MAX d) lvl); [| lia].
  destruct Hor as [-> | Hlt]; [done |].
  destruct (Z.leb_spec (DYNAMIC_LOG_LVL_MIN d) lvl); [lia |].
  by rewrite andb_false_r.
Qed.

Lemma LOG_at_deleted d lvl name a :
  DYNAMIC_LOG_LVL_MAX d < lvl -> LOG_at lvl d name a = SEmpty.
Proof.
  intros Hlt. unfold LOG_at.
  by destruct (Z.geb_spec (DYNAMIC_LOG_LVL_MAX d) lvl); [lia |].
Qed.

Lemma exec_LOG_at_vars d lvl name a s s' :
  exec d (LOG_at lvl d name a) s = Some s' -> vars s' = vars s.
Proof.
  unfold LOG_at.
  destruct (_ >=? _); [| by intros [= <-]].
  destruct (_ && _); simpl; [| by intros [= <-]].
  destruct (vars s !! name) as [t |]; [| done].
  by destruct (b2i (t >=? lvl) =? 0); intros [= <-].
Qed.

Lemma eval_GET_state d name s v s' :
  eval d (GET_LOG_SYSTEM_LVL d name) s = Some (v, s') -> s' = s.
Proof. apply (eval_arg d (AGet name)). Qed.

(** [SET_LOG_SYSTEM_LVL] with a guarded argument. *)
Lemma step_OSet d name x s :
  pp_true (DYNAMIC_LOG_LVL d) = true ->
  bare_conditional x = false ->
  step d (OSet name x) s
  = match eval d (arg_expr d x) s with
    | Some (v, _) =>
        match vars s !! name with
        | Some _ =>
            Some {| vars := <[name := to_log_lvl_t d (clamp_val d v)]> (vars s);
                    calls := calls s |}
        | None => None
        end
    | None => None
    end.
Proof.
  intros Hdyn Hx. unfold step, expand_op, SET_LOG_SYSTEM_LVL. rewrite Hdyn.
  cbn [exec eval]. rewrite eval_CLAMP_arg by done.
  destruct (eval d (arg_expr d x) s) as [[v s1] |]; [| done].
  by destruct (vars s !! name).
Qed.

(** [SET_LOG_SYSTEM_LVL] with any argument: it runs only on a defined
    cell, and writes a value of [__log_lvl_t] to that cell alone. *)
Lemma step_OSet_any d name x s s' :
  pp_true (DYNAMIC_LOG_LVL d) = true ->
  step d (OSet name x) s = Some s' ->
  is_Some (vars s !! name)
  /\ exists v, s' = {| vars := <[name := to_log_lvl_t d v]> (vars s);
                       calls := calls s |}.
Proof.
  intros Hdyn. unfold step, expand_op, SET_LOG_SYSTEM_LVL. rewrite Hdyn.
  cbn [exec eval].
  destruct (eval d (__LOG_LVL_CLAMP d (arg_expr d x)) s) as [[v s1] |] eqn:He;
    [| done].
  apply eval_pure in He as ->; [| apply pure_CLAMP, pure_arg_expr].
  destruct (vars s !! name) as [t |]; [| done].
  intros [= <-]. split; [by eexists | by exists v].
Qed.

Lemma step_OSet_disabled d name x s :
  pp_true (DYNAMIC_LOG_LVL d) = false -> step d (OSet name x) s = Some s.
Proof.
  intros Hdyn. unfold step, expand_op, SET_LOG_SYSTEM_LVL. by rewrite Hdyn.
Qed.

(** Only [SET_LOG_SYSTEM_LVL] writes a cell. *)
Lemma step_vars d o s s' :
  step d o s = Some s' ->
  match o with OSet _ _ => True | _ => vars s' = vars s end.
Proof.
  destruct o as [L name a | name x | name]; [| done |]; unfold step; simpl.
  - rewrite LOG_eq. apply exec_LOG_at_vars.
  - destruct (eval d (GET_LOG_SYSTEM_LVL d name) s) as [[v s1] |] eqn:He;
      [| done].
    apply eval_GET_state in He as ->. by intros [= <-].
Qed.

(** ** Initialization and the range invariant *)

Lemma link_keeps d ts : forall m s name v,
  link d ts m = Built s -> m !! name = Some v -> vars s !! name = Some v.
Proof.
  induction ts as [| t ts IH]; intros m s name v; simpl.
  - by intros [= <-].
  - destruct t as [| n | n init]; [by apply IH | by apply IH |].
    destruct (m !! n) eqn:Hn; [done |].
    destruct (eval d init no_cells) as [[x s1] |]; [| done].
    intros Hl Hv. eapply IH; [done |].
    rewrite lookup_insert_ne; [done | congruence].
Qed.

(** Linking one item: it is skipped, or defines a fresh cell. *)
Lemma link_item d i items m s :
  link d (map (expand_item d) (i :: items)) m = Built s ->
  link d (map (expand_item d) items) m = Built s
  \/ exists n x y,
       i = IDefine n x /\ pp_true (DYNAMIC_LOG_LVL d) = true
       /\ m !! n = None
       /\ (exists s1,
             eval d (__LOG_LVL_CLAMP d (arg_expr d x)) no_cells = Some (y, s1))
       /\ link d (map (expand_item d) items) (<[n := to_log_lvl_t d y]> m)
          = Built s.
Proof.
  destruct i as [n | n x]; simpl.
  - unfold DECLARE_LOG_SYSTEM. destruct (pp_true _); simpl; by left.
  - unfold DEFINE_LOG_SYSTEM.
    destruct (pp_true (DYNAMIC_LOG_LVL d)) eqn:Hdyn; cbn [link]; [| by left].
    destruct (m !! n) eqn:Hn; [done |].
    destruct (eval d (__LOG_LVL_CLAMP d (arg_expr d x)) no_cells)
      as [[y s1] |] eqn:He; [| done].
    intros Hl. right. exists n, x, y. eauto 10.
Qed.

Lemma link_define d n x items m s :
  pp_true (DYNAMIC_LOG_LVL d) = true ->
  link d (map (expand_item d) (IDefine n x :: items)) m = Built s ->
  m !! n = None
  /\ exists y s1,
       eval d (__LOG_LVL_CLAMP d (arg_expr d x)) no_cells = Some (y, s1)
       /\ link d (map (expand_item d) items) (<[n := to_log_lvl_t d y]> m)
          = Built s.
Proof.
  intros Hdyn. simpl. unfold DEFINE_LOG_SYSTEM. rewrite Hdyn. cbn [link].
  destruct (m !! n) eqn:Hn; [done |].
  destruct (eval d (__LOG_LVL_CLAMP d (arg_expr d x)) no_cells)
    as [[y s1] |] eqn:He; [| done].
  intros Hl. split; [done |]. by exists y, s1.
Qed.

Lemma link_defined_some d items : forall m s name x,
  pp_true (DYNAMIC_LOG_LVL d) = true ->
  link d (map (expand_item d) items) m = Built s ->
  In (IDefine name x) items ->
  exists y s1,
    eval d (__LOG_LVL_CLAMP d (arg_expr d x)) no_cells = Some (y, s1)
    /\ vars s !! name = Some (to_log_lvl_t d y).
Proof.
  induction items as [| i items IH]; intros m s name x Hdyn; [done |].
  intros Hl [-> | Hin].
  - apply link_define in Hl as (_ & y & s1 & He & Hl); [| done].
    exists y, s1. split; [done |].
    eapply link_keeps; [done |]. apply lookup_insert_eq.
  - apply link_item in Hl as [Hl | (n & x' & y & _ & _ & _ & _ & Hl)]; eauto.
Qed.



Lemma link_in_char d items : forall m s,
  link d (map (expand_item d) items) m = Built s ->
  in_char d m -> in_char d (vars s).
Proof.
  induction items as [| i items IH]; intros m s.
  - simpl. by intros [= <-].
  - intros Hl Hm.
    apply link_item in Hl
      as [Hl | (n & x & y & -> & _ & _ & _ & Hl)]; [by eapply IH |].
    eapply IH; [done |].
    intros name t. rewrite lookup_insert. case_decide.
    + intros [= <-]. apply to_log_lvl_t_range.
    + apply Hm.
Qed.

Lemma build_ok d items s :
  build d items = Built s -> DYNAMIC_LOG_LVL_MIN d <= DYNAMIC_LOG_LVL_MAX d.
Proof.
  unfold build. destruct (mcl_h_error d) eqn:He; [done |].
  intros _. by apply mcl_h_ok.
Qed.

Lemma reachable_ok d s :
  reachable d s -> DYNAMIC_LOG_LVL_MIN d <= DYNAMIC_LOG_LVL_MAX d.
Proof. induction 1; eauto using build_ok. Qed.



Lemma step_in_char d o s s' :
  in_char d (vars s) -> step d o s = Some s' -> in_char d (vars s').
Proof.
  intros Hs Hstep.
  destruct o as [L name a | name x | name];
    [by rewrite (step_vars _ _ _ _ Hstep) | | by rewrite (step_vars _ _ _ _ Hstep)].
  destruct (pp_true (DYNAMIC_LOG_LVL d)) eqn:Hdyn.
  - apply step_OSet_any in Hstep as [_ [v ->]]; [| done]. simpl.
    intros n t. rewrite lookup_insert. case_decide.
    + intros [= <-]. apply to_log_lvl_t_range.
    + apply Hs.
  - rewrite step_OSet_disabled in Hstep by done. by injection Hstep as <-.
Qed.


(** Whatever the arguments written, a cell only ever holds a value of
    [__log_lvl_t]. *)
Lemma reachable_in_char d s : reachable d s -> in_char d (vars s).
Proof.
  induction 1 as [items s Hb | o s s' Hr IH Hstep].
  - revert Hb. unfold build. destruct (mcl_h_error d); [done |]. intros Hl.
    eapply link_in_char; [done |]. intros name t. by rewrite lookup_empty.
  - by eapply step_in_char.
Qed.

Lemma calls_grow (l : list (Z * args)) x : l ++ [x] <> l.
Proof.
  intros H. apply (f_equal length) in H. rewrite length_app in H.
  simpl in H. lia.
Qed.

(** ** The level gate *)

(** C1: with dynamic adjustment enabled and a call-site level [L] with
    [DYNAMIC_LOG_LVL_MIN < L <= DYNAMIC_LOG_LVL_MAX], the logging statement
    for [L] calls the output action if and only if the threshold stored for
    the system at that moment is at least [L]; otherwise it does nothing. *)
Theorem LOG_checks_threshold d L name a s t :
  pp_true (DYNAMIC_LOG_LVL d) = true ->
  DYNAMIC_LOG_LVL_MIN d < LOG_LVL L <= DYNAMIC_LOG_LVL_MAX d ->
  vars s !! name = Some t ->
  exec d (LOG L d name a) s
  = Some (if t >=? LOG_LVL L then invoke (LOG_LVL L) a s else s)
  /\ (invokes d (LOG L d name a) s (LOG_LVL L) a <-> t >= LOG_LVL L)
  /\ (silent d (LOG L d name a) s <-> t < LOG_LVL L).
Proof.
  intros Hdyn [Hlo Hhi] Ht.
  assert (exec d (LOG L d name a) s
          = Some (if t >=? LOG_LVL L then invoke (LOG_LVL L) a s else s))
    as He by (rewrite LOG_eq; apply exec_LOG_at_checked; [done | lia | done]).
  split; [done |]. unfold invokes, silent. rewrite He.
  destruct (Z.geb_spec t (LOG_LVL L)) as [Hge | Hlt]; split; split.
  - lia.
  - intros _. by eexists.
  - intros (s' & [= <-] & Hc). simpl in Hc. by apply calls_grow in Hc.
  - lia.
  - intros (s' & [= <-] & Hc). symmetry in Hc. by apply calls_grow in Hc.
  - lia.
  - done.
  - intros _. by eexists.
Qed.

Lemma LOG_checks_threshold_witness :
  invokes default_defines (LOG MSG default_defines "example" "started")
    {| vars := {[ "example"%string := 3 ]}; calls := [] |} (LOG_LVL MSG) "started"
  <-> 3 >= LOG_LVL MSG.
Proof.
  apply (LOG_checks_threshold default_defines MSG "example" "started"
           {| vars := {[ "example"%string := 3 ]}; calls := [] |} 3).
  - reflexivity.
  - vm_compute. split; [reflexivity | discriminate].
  - reflexivity.
Defined.

(** C5: a call site at a level above [DYNAMIC_LOG_LVL_MAX] expands to no
    tokens, so whatever the thresholds are it never calls the output
    action and leaves the state as it was. *)
Theorem LOG_above_max_deleted d L name a :
  DYNAMIC_LOG_LVL_MAX d < LOG_LVL L ->
  LOG L d name a = SEmpty
  /\ forall s, exec d (LOG L d name a) s = Some s /\ silent d (LOG L d name a) s.
Proof.
  intros Hlt. rewrite LOG_eq, LOG_at_deleted by done.
  split; [done |]. intros s. split; [done |]. by exists s.
Qed.

Lemma LOG_above_max_deleted_witness :
  LOG DEBUG default_defines "example" "probe" = SEmpty.
Proof.
  apply (LOG_above_max_deleted default_defines DEBUG "example" "probe").
  reflexivity.
Defined.

(** C10: neither a logging statement (deleted, hardwired or checked) nor a
    read of the level changes any threshold cell: for a defined system both
    run, and every cell holds after the call what it held before.  Of the
    statements a program makes through the header, only
    [SET_LOG_SYSTEM_LVL] can change a cell. *)
Theorem LOG_and_GET_keep_thresholds d s :
  (forall L name a, is_Some (vars s !! name) ->
     exists s', exec d (LOG L d name a) s = Some s' /\ vars s' = vars s)
  /\ (forall name, is_Some (vars s !! name) ->
        exists v, eval d (GET_LOG_SYSTEM_LVL d name) s = Some (v, s))
  /\ (forall o s', step d o s = Some s' -> vars s' <> vars s ->
        exists name x, o = OSet name x).
Proof.
  split; [| split].
  - intros L name a [t Ht].
    destruct (exec d (LOG L d name a) s) as [s' |] eqn:He.
    + exists s'. split; [done |]. rewrite LOG_eq in He.
      by apply exec_LOG_at_vars in He.
    + exfalso. revert He. rewrite LOG_eq. unfold LOG_at.
      destruct (_ >=? _); [| done].
      destruct (_ && _); simpl; [| done].
      rewrite Ht. by destruct (b2i (t >=? LOG_LVL L) =? 0).
  - intros name [t Ht]. unfold GET_LOG_SYSTEM_LVL.
    destruct (pp_true _); simpl; [rewrite Ht |]; by eexists.
  - intros o s' Hstep Hne. pose proof (step_vars _ _ _ _ Hstep) as Hv.
    destruct o; [done | eauto | done].
Qed.

Lemma LOG_and_GET_keep_thresholds_witness :
  exists s',
    exec default_defines (LOG WARN default_defines "example" "low disk")
      {| vars := {[ "example"%string := 4 ]}; calls := [] |} = Some s'
    /\ vars s' = {[ "example"%string := 4 ]}.
Proof.
  assert (is_Some (({[ "example"%string := 4 ]} : gmap string Z) !! "example"%string))
    as Hdef by (exists 4; reflexivity).
  exact (proj1 (LOG_and_GET_keep_thresholds default_defines
                  {| vars := {[ "example"%string := 4 ]}; calls := [] |})
           WARN "example"%string "low disk"%string Hdef).
Defined.

(** ** The threshold stays in the dynamic range *)







(** C4: the claim that a call site at a level [L <= DYNAMIC_LOG_LVL_MIN]
    prints in every reachable state fails on the code.  On the header as
    shipped, after [DEFINE_LOG_SYSTEM(example, LOG_LVL_ERROR)] and
    [SET_LOG_SYSTEM_LVL(example, 1 ? 0 : 9)] the cell holds 0, below
    [DYNAMIC_LOG_LVL_MIN], because the clamp reads
    [1 ? 0 : (9 > MAX ? ...)]; [LOG_WARN], whose level is
    [DYNAMIC_LOG_LVL_MIN] and which therefore carries the run-time test,
    then runs without calling the output action. *)
Theorem LOG_at_min_silenced :
  pp_true (DYNAMIC_LOG_LVL default_defines) = true
  /\ LOG_LVL WARN <= DYNAMIC_LOG_LVL_MIN default_defines
  /\ LOG_LVL WARN <= DYNAMIC_LOG_LVL_MAX default_defines
  /\ build default_defines [IDefine "example" (AConst LOG_LVL_ERROR)]
     = Built {| vars := {[ "example"%string := 2 ]}; calls := [] |}
  /\ step default_defines
       (OSet "example" (ACond (AConst 1) (AConst 0) (AConst 9)))
       {| vars := {[ "example"%string := 2 ]}; calls := [] |}
     = Some {| vars := {[ "example"%string := 0 ]}; calls := [] |}
  /\ reachable default_defines
       {| vars := {[ "example"%string := 0 ]}; calls := [] |}
  /\ exec default_defines (LOG WARN default_defines "example" "low disk")
       {| vars := {[ "example"%string := 0 ]}; calls := [] |}
     = Some {| vars := {[ "example"%string := 0 ]}; calls := [] |}
  /\ ~ invokes default_defines (LOG WARN default_defines "example" "low disk")
         {| vars := {[ "example"%string := 0 ]}; calls := [] |}
         (LOG_LVL WARN) "low disk".
Proof.
  assert (exec default_defines (LOG WARN default_defines "example" "low disk")
            {| vars := {[ "example"%string := 0 ]}; calls := [] |}
          = Some {| vars := {[ "example"%string := 0 ]}; calls := [] |})
    as He by reflexivity.
  split; [reflexivity |]. split; [vm_compute; discriminate |].
  split; [vm_compute; discriminate |]. split; [reflexivity |].
  split; [reflexivity |]. split; [| split; [done |]].
  - apply reach_step
      with (OSet "example" (ACond (AConst 1) (AConst 0) (AConst 9)))
           {| vars := {[ "example"%string := 2 ]}; calls := [] |};
      [| reflexivity].
    apply reach_built with [IDefine "example" (AConst LOG_LVL_ERROR)].
    reflexivity.
  - intros (s' & Hs' & Hc). rewrite He in Hs'. injection Hs' as <-.
    simpl in Hc. discriminate.
Qed.

(** C6: with dynamic adjustment disabled, [SET_LOG_SYSTEM_LVL] expands to
    no tokens and changes nothing, [GET_LOG_SYSTEM_LVL] is the constant
    [DYNAMIC_LOG_LVL_MAX], a call site at a level up to
    [DYNAMIC_LOG_LVL_MAX] is an unconditional call of the output action,
    and a call site above [DYNAMIC_LOG_LVL_MAX] still expands to no
    tokens. *)
Theorem dynamic_disabled d :
  pp_true (DYNAMIC_LOG_LVL d) = false ->
  (forall name lvl, SET_LOG_SYSTEM_LVL d name lvl = None)
  /\ (forall name x s, step d (OSet name x) s = Some s)
  /\ (forall name,
        GET_LOG_SYSTEM_LVL d name = EConst (DYNAMIC_LOG_LVL_MAX d))
  /\ (forall name s,
        eval d (GET_LOG_SYSTEM_LVL d name) s
        = Some (DYNAMIC_LOG_LVL_MAX d, s))
  /\ (forall L name a s,
        LOG_LVL L <= DYNAMIC_LOG_LVL_MAX d ->
        LOG L d name a = SAction (LOG_LVL L) a
        /\ invokes d (LOG L d name a) s (LOG_LVL L) a)
  /\ (forall L name a,
        DYNAMIC_LOG_LVL_MAX d < LOG_LVL L -> LOG L d name a = SEmpty).
Proof.
  intros Hdyn. split; [| split; [| split; [| split; [| split]]]].
  - intros name lvl. unfold SET_LOG_SYSTEM_LVL. by rewrite Hdyn.
  - intros name x s. by apply step_OSet_disabled.
  - intros name. unfold GET_LOG_SYSTEM_LVL. by rewrite Hdyn.
  - intros name s. unfold GET_LOG_SYSTEM_LVL. by rewrite Hdyn.
  - intros L name a s HL.
    rewrite LOG_eq, LOG_at_hardwired; [| done | by left].
    split; [done |]. by eexists.
  - intros L name a HL. rewrite LOG_eq. by apply LOG_at_deleted.
Qed.

Lemma dynamic_disabled_witness :
  step static_defines (OSet "example" (AConst LOG_LVL_NONE)) no_cells
  = Some no_cells
  /\ eval static_defines (GET_LOG_SYSTEM_LVL static_defines "example") no_cells
     = Some (LOG_LVL_VERBOSE, no_cells)
  /\ invokes static_defines (LOG VERBOSE static_defines "example" "details")
       no_cells (LOG_LVL VERBOSE) "details"
  /\ LOG DEBUG static_defines "example" "probe" = SEmpty.
Proof.
  destruct (dynamic_disabled static_defines eq_refl)
    as (_ & Hset & _ & Hget & Hlog & Hdel).
  split; [apply Hset |]. split; [apply Hget |]. split.
  - apply Hlog. vm_compute. discriminate.
  - apply Hdel. reflexivity.
Defined.

(** ** Definition of a system *)




(** C8 (as amended): in every state a program reaches in which the
    threshold of a defined system lies in
    [[DYNAMIC_LOG_LVL_MIN, DYNAMIC_LOG_LVL_MAX]], setting the level of that
    system to the level it currently has,
    [SET_LOG_SYSTEM_LVL(name, GET_LOG_SYSTEM_LVL(name))], leaves the state,
    and so the stored threshold, exactly as it was. *)
Theorem SET_current_level_is_noop d name s t :
  reachable d s ->
  vars s !! name = Some t ->
  DYNAMIC_LOG_LVL_MIN d <= t <= DYNAMIC_LOG_LVL_MAX d ->
  step d (OSet name (AGet name)) s = Some s.
Proof.
  intros Hr Ht Hrange.
  destruct (pp_true (DYNAMIC_LOG_LVL d)) eqn:Hdyn;
    [| by apply step_OSet_disabled].
  rewrite step_OSet by done. simpl. unfold GET_LOG_SYSTEM_LVL.
  rewrite Hdyn. simpl. rewrite Ht.
  pose proof (reachable_in_char _ _ Hr _ _ Ht) as Hchar.
  rewrite clamp_val_id, to_log_lvl_t_id by done.
  rewrite insert_id by done. by rewrite state_eta.
Qed.

Lemma SET_current_level_is_noop_witness :
  step default_defines (OSet "example" (AGet "example"))
    {| vars := {[ "example"%string := 2 ]}; calls := [] |}
  = Some {| vars := {[ "example"%string := 2 ]}; calls := [] |}.
Proof.
  apply (SET_current_level_is_noop default_defines "example"
           {| vars := {[ "example"%string := 2 ]}; calls := [] |} 2).
  - apply reach_built with [IDefine "example" (AConst LOG_LVL_ERROR)].
    reflexivity.
  - reflexivity.
  - vm_compute. split; discriminate.
Defined.

(** Two reachable states in which setting a system to its current level
    changes the threshold.  On the header as shipped, after
    [SET_LOG_SYSTEM_LVL(example, 1 ? 7 : 0)] the cell holds 7 and
    [SET_LOG_SYSTEM_LVL(example, GET_LOG_SYSTEM_LVL(example))] brings it
    to 5.  Where [char] is unsigned and [DYNAMIC_LOG_LVL_MIN] is
    [LOG_LVL_NONE], [DEFINE_LOG_SYSTEM(example, LOG_LVL_NONE)] starts the
    cell at 255 and the same call brings it to 5. *)
Lemma SET_current_level_is_noop_counterexample :
  (reachable default_defines
     {| vars := {[ "example"%string := 7 ]}; calls := [] |}
   /\ step default_defines (OSet "example" (AGet "example"))
        {| vars := {[ "example"%string := 7 ]}; calls := [] |}
      = Some {| vars := {[ "example"%string := 5 ]}; calls := [] |})
  /\ (reachable unsigned_defines
        {| vars := {[ "example"%string := 255 ]}; calls := [] |}
      /\ step unsigned_defines (OSet "example" (AGet "example"))
           {| vars := {[ "example"%string := 255 ]}; calls := [] |}
         = Some {| vars := {[ "example"%string := 5 ]}; calls := [] |}).
Proof.
  split; (split; [| reflexivity]).
  - apply reach_step
      with (OSet "example" (ACond (AConst 1) (AConst 7) (AConst 0)))
           {| vars := {[ "example"%string := 2 ]}; calls := [] |};
      [| reflexivity].
    apply reach_built with [IDefine "example" (AConst LOG_LVL_ERROR)].
    reflexivity.
  - apply reach_built with [IDefine "example" (AConst LOG_LVL_NONE)].
    reflexivity.
Qed.

(** ** Rejected configurations *)

(** C9: when [DYNAMIC_LOG_LVL_MIN > DYNAMIC_LOG_LVL_MAX], including the
    header stops the build with the [#error] message, whatever the program
    is; the bounds are not swapped or reordered, and no state of the
    program exists. *)
Theorem min_above_max_rejected d :
  DYNAMIC_LOG_LVL_MIN d > DYNAMIC_LOG_LVL_MAX d ->
  mcl_h_error d
  = Some "DYNAMIC_LOG_LVL_MIN cannot be greater than DYNAMIC_LOG_LVL_MAX"%string
  /\ (forall items,
        build d items
        = BuildError "DYNAMIC_LOG_LVL_MIN cannot be greater than DYNAMIC_LOG_LVL_MAX")
  /\ (forall s, ~ reachable d s).
Proof.
  intros Hgt.
  assert (mcl_h_error d
          = Some "DYNAMIC_LOG_LVL_MIN cannot be greater than DYNAMIC_LOG_LVL_MAX"%string)
    as He.
  { unfold mcl_h_error.
    by destruct (Z.gtb_spec (DYNAMIC_LOG_LVL_MIN d) (DYNAMIC_LOG_LVL_MAX d));
      [| lia]. }
  split; [done |]. split.
  - intros items. unfold build. by rewrite He.
  - intros s Hr. apply reachable_ok in Hr. lia.
Qed.

Lemma min_above_max_rejected_witness :
  build inverted_defines [IDefine "example" (AConst LOG_LVL_ERROR)]
  = BuildError "DYNAMIC_LOG_LVL_MIN cannot be greater than DYNAMIC_LOG_LVL_MAX".
Proof.
  apply (min_above_max_rejected inverted_defines). reflexivity.
Defined.

(** ** Reach of the representability condition *)

(** On a target whose [char] is signed, every level and both sentinels are
    values of [__log_lvl_t], so every choice of bounds the header offers
    meets [bounds_fit_char]. *)
Lemma offered_bounds_fit_signed_char d :
  char_unsigned d = false ->
  is_bound (DYNAMIC_LOG_LVL_MIN d) -> is_bound (DYNAMIC_LOG_LVL_MAX d) ->
  bounds_fit_char d.
Proof.
  intros Hs Hmin Hmax. unfold bounds_fit_char, char_min, char_max.
  rewrite Hs. split.
  - destruct Hmin as [-> | [-> | [L ->]]]; [done | done | by destruct L].
  - destruct Hmax as [-> | [-> | [L ->]]]; [done | done | by destruct L].
Qed.

(** On a target whose [char] is unsigned, [LOG_LVL_NONE] is not a value of
    [__log_lvl_t]: stored in a cell it reads back as 255. *)
Remark NONE_in_unsigned_char d :
  char_unsigned d = true -> to_log_lvl_t d LOG_LVL_NONE = 255.
Proof. intros Hu. unfold to_log_lvl_t. by rewrite Hu. Qed.

(** ** Further properties of the gate *)

Lemma exec_LOG_at d lvl name a s :
  exec d (LOG_at lvl d name a) s
  = if DYNAMIC_LOG_LVL_MAX d >=? lvl then
      if pp_true (DYNAMIC_LOG_LVL d) && (DYNAMIC_LOG_LVL_MIN d <=? lvl) then
        match vars s !! name with
        | Some t => Some (if t >=? lvl then invoke lvl a s else s)
        | None => None
        end
      else Some (invoke lvl a s)
    else Some s.
Proof.
  unfold LOG_at. destruct (_ >=? _); [| done].
  destruct (_ && _); [| done]. simpl.
  destruct (vars s !! name) as [t |]; [| done]. by destruct (t >=? lvl).
Qed.

Lemma exec_decides d c s lvl a (b : bool) :
  exec d c s = Some (if b then invoke lvl a s else s) ->
  (invokes d c s lvl a <-> b = true) /\ (silent d c s <-> b = false).
Proof.
  intros He. unfold invokes, silent. rewrite He.
  destruct b; split; split; try done.
  - intros _. by eexists.
  - intros (s' & [= <-] & Hc). simpl in Hc. by apply calls_grow in Hc.
  - intros (s' & [= <-] & Hc). symmetry in Hc. by apply calls_grow in Hc.
  - intros _. by eexists.
Qed.

Lemma invokes_LOG_at d lvl name a s :
  invokes d (LOG_at lvl d name a) s lvl a <->
  lvl <= DYNAMIC_LOG_LVL_MAX d
  /\ (pp_true (DYNAMIC_LOG_LVL d) = true -> DYNAMIC_LOG_LVL_MIN d <= lvl ->
      exists t, vars s !! name = Some t /\ lvl <= t).
Proof.
  unfold invokes. rewrite exec_LOG_at.
  destruct (Z.geb_spec (DYNAMIC_LOG_LVL_MAX d) lvl) as [Hmax | Hmax].
  - destruct (pp_true (DYNAMIC_LOG_LVL d)); simpl.
    + destruct (Z.leb_spec (DYNAMIC_LOG_LVL_MIN d) lvl) as [Hmin | Hmin].
      * destruct (vars s !! name) as [t |].
        -- destruct (Z.geb_spec t lvl).
           ++ split; [| by eexists]. intros _. split; [lia |].
              intros _ _. exists t. split; [done | lia].
           ++ split.
              ** intros (s' & [= <-] & Hc). symmetry in Hc.
                 by apply calls_grow in Hc.
              ** intros (_ & Ht). destruct (Ht eq_refl Hmin) as (t' & [= <-] & ?).
                 lia.
        -- split; [by intros (s' & ? & _) |].
           intros (_ & Ht). by destruct (Ht eq_refl Hmin) as (t' & ? & _).
      * split; [| by eexists]. intros _. split; [lia |]. intros _ ?. lia.
    + split; [| by eexists]. intros _. split; [lia | done].
  - split; [| lia]. intros (s' & [= <-] & Hc). symmetry in Hc.
    by apply calls_grow in Hc.
Qed.

Lemma exec_LOG_at_by_GET d lvl name a s g :
  DYNAMIC_LOG_LVL_MIN d <= g <= DYNAMIC_LOG_LVL_MAX d ->
  eval d (GET_LOG_SYSTEM_LVL d name) s = Some (g, s) ->
  exec d (LOG_at lvl d name a) s
  = Some (if lvl <=? g then invoke lvl a s else s).
Proof.
  intros Hrange Hg.
  rewrite exec_LOG_at. revert Hg. unfold GET_LOG_SYSTEM_LVL.
  destruct (pp_true (DYNAMIC_LOG_LVL d)); simpl.
  - destruct (vars s !! name) as [t |] eqn:Ht; [| done]. intros [= ->].
    destruct (Z.geb_spec (DYNAMIC_LOG_LVL_MAX d) lvl);
      destruct (Z.leb_spec (DYNAMIC_LOG_LVL_MIN d) lvl);
      destruct (Z.geb_spec g lvl);
      destruct (Z.leb_spec lvl g); done || lia.
  - intros [= <-].
    destruct (Z.geb_spec (DYNAMIC_LOG_LVL_MAX d) lvl);
      destruct (Z.leb_spec lvl (DYNAMIC_LOG_LVL_MAX d)); done || lia.
Qed.

(** X1: in any state, in either dynamic mode, where
    [GET_LOG_SYSTEM_LVL(name)] has a value in
    [[DYNAMIC_LOG_LVL_MIN, DYNAMIC_LOG_LVL_MAX]], that value tells exactly
    which call sites print: the logging statement for level [L] calls the
    output action if and only if [L] is at most that value, and otherwise
    does nothing. *)
Theorem LOG_fires_iff_at_most_GET d L name a s g :
  eval d (GET_LOG_SYSTEM_LVL d name) s = Some (g, s) ->
  DYNAMIC_LOG_LVL_MIN d <= g <= DYNAMIC_LOG_LVL_MAX d ->
  (invokes d (LOG L d name a) s (LOG_LVL L) a <-> LOG_LVL L <= g)
  /\ (silent d (LOG L d name a) s <-> g < LOG_LVL L).
Proof.
  intros Hg Hrange. rewrite LOG_eq.
  pose proof (exec_LOG_at_by_GET d (LOG_LVL L) name a s g Hrange Hg) as He.
  apply exec_decides in He as [Hi Hs].
  rewrite Hi, Hs, Z.leb_le, Z.leb_gt. done.
Qed.

Lemma LOG_fires_iff_at_most_GET_witness :
  silent default_defines (LOG INFO default_defines "example" "progress")
    {| vars := {[ "example"%string := 2 ]}; calls := [] |}
  <-> 2 < LOG_LVL INFO.
Proof.
  assert (DYNAMIC_LOG_LVL_MIN default_defines <= 2
          <= DYNAMIC_LOG_LVL_MAX default_defines) as Hrange
    by (vm_compute; split; discriminate).
  exact (proj2 (LOG_fires_iff_at_most_GET default_defines INFO "example"
                  "progress"
                  {| vars := {[ "example"%string := 2 ]}; calls := [] |}
                  2 eq_refl Hrange)).
Defined.

(** X2: the gate is monotone, in any state whatever: if the call site for
    level [L] prints while the system's threshold is [t], then the call
    site for a level [L' <= L] prints while the threshold is [t' >= t]. *)
Theorem LOG_monotone d L L' name a a' s s' t t' :
  vars s !! name = Some t ->
  vars s' !! name = Some t' ->
  LOG_LVL L' <= LOG_LVL L ->
  t <= t' ->
  invokes d (LOG L d name a) s (LOG_LVL L) a ->
  invokes d (LOG L' d name a') s' (LOG_LVL L') a'.
Proof.
  intros Ht Ht' HL Htt. rewrite !LOG_eq, !invokes_LOG_at.
  intros (Hmax & Hchk). split; [lia |]. intros Hdyn Hmin.
  exists t'. split; [done |].
  destruct (Hchk Hdyn) as (t0 & Ht0 & Hge); [lia |].
  rewrite Ht in Ht0. injection Ht0 as <-. lia.
Qed.

Lemma LOG_monotone_witness :
  invokes default_defines (LOG MSG default_defines "example" "ready")
    {| vars := {[ "example"%string := 5 ]}; calls := [] |}
    (LOG_LVL MSG) "ready".
Proof.
  apply (LOG_monotone default_defines INFO MSG "example" "progress" "ready"
           {| vars := {[ "example"%string := 4 ]}; calls := [] |}
           {| vars := {[ "example"%string := 5 ]}; calls := [] |} 4 5).
  - reflexivity.
  - reflexivity.
  - vm_compute. discriminate.
  - vm_compute. discriminate.
  - eexists. split; reflexivity.
Defined.

(** ** Further properties of [SET_LOG_SYSTEM_LVL] *)

Lemma step_OSet_const d name v s :
  pp_true (DYNAMIC_LOG_LVL d) = true ->
  step d (OSet name (AConst v)) s
  = match vars s !! name with
    | Some _ => Some (set_cell d name v s)
    | None => None
    end.
Proof. intros Hdyn. by rewrite step_OSet. Qed.

(** X3: of two [SET_LOG_SYSTEM_LVL] on one system the later one wins: the
    second call gives the state it would have given without the first; in
    particular repeating a call changes nothing more. *)
Theorem SET_last_write_wins d name v w s s1 :
  step d (OSet name (AConst v)) s = Some s1 ->
  step d (OSet name (AConst w)) s1 = step d (OSet name (AConst w)) s
  /\ step d (OSet name (AConst v)) s1 = Some s1.
Proof.
  destruct (pp_true (DYNAMIC_LOG_LVL d)) eqn:Hdyn.
  - rewrite !step_OSet_const by done.
    destruct (vars s !! name) as [t |] eqn:Ht; [| done]. intros [= <-].
    simpl. rewrite lookup_insert_eq. unfold set_cell. simpl.
    by rewrite !insert_insert_eq.
  - rewrite !step_OSet_disabled by done. by intros [= <-].
Qed.

Lemma SET_last_write_wins_witness :
  step default_defines (OSet "example" (AConst LOG_LVL_NONE))
    {| vars := {[ "example"%string := 5 ]}; calls := [] |}
  = step default_defines (OSet "example" (AConst LOG_LVL_NONE))
      {| vars := {[ "example"%string := 3 ]}; calls := [] |}.
Proof.
  apply (SET_last_write_wins default_defines "example" LOG_LVL_ALL LOG_LVL_NONE
           {| vars := {[ "example"%string := 3 ]}; calls := [] |}
           {| vars := {[ "example"%string := 5 ]}; calls := [] |}).
  reflexivity.
Defined.

(** X4: [SET_LOG_SYSTEM_LVL(name, lvl)] writes one cell only: it makes no
    call of the output action, leaves the cell of every other system as it
    was, and creates or removes no cell. *)
Theorem SET_touches_one_cell d name x s s' :
  step d (OSet name x) s = Some s' ->
  calls s' = calls s
  /\ (forall other, other <> name -> vars s' !! other = vars s !! other)
  /\ dom (vars s') = dom (vars s).
Proof.
  destruct (pp_true (DYNAMIC_LOG_LVL d)) eqn:Hdyn.
  - intros Hstep. apply step_OSet_any in Hstep as [Hdef [v ->]]; [| done].
    simpl. split; [done |]. split.
    + intros other Hne. by rewrite lookup_insert_ne.
    + by apply dom_insert_lookup_L.
  - rewrite step_OSet_disabled by done. by intros [= <-].
Qed.

Lemma SET_touches_one_cell_witness :
  dom (<[ "example"%string := 5 ]> ({[ "example"%string := 2 ]} : gmap string Z))
  = dom ({[ "example"%string := 2 ]} : gmap string Z).
Proof.
  exact (proj2 (proj2 (SET_touches_one_cell default_defines "example"
                         (AConst LOG_LVL_ALL)
                         {| vars := {[ "example"%string := 2 ]}; calls := [] |}
                         {| vars := <[ "example"%string := 5 ]>
                                      {[ "example"%string := 2 ]};
                            calls := [] |} eq_refl))).
Defined.

(** X5: [SET_LOG_SYSTEM_LVL] on two different systems can be made in
    either order: both orders fail together or give the same state. *)
Theorem SET_commute d n1 n2 v1 v2 s :
  n1 <> n2 ->
  step2 d (OSet n1 (AConst v1)) (OSet n2 (AConst v2)) s
  = step2 d (OSet n2 (AConst v2)) (OSet n1 (AConst v1)) s.
Proof.
  intros Hne. unfold step2.
  destruct (pp_true (DYNAMIC_LOG_LVL d)) eqn:Hdyn.
  - rewrite !step_OSet_const by done.
    destruct (vars s !! n1) as [t1 |] eqn:H1;
      destruct (vars s !! n2) as [t2 |] eqn:H2;
      rewrite ?step_OSet_const by done; simpl;
      rewrite ?lookup_insert_ne by done; rewrite ?H1, ?H2; try done.
    unfold set_cell. simpl. f_equal. f_equal. by apply insert_insert_ne.
  - by rewrite !step_OSet_disabled.
Qed.

Lemma SET_commute_witness :
  step2 default_defines (OSet "net" (AConst 4)) (OSet "disk" (AConst 9))
    {| vars := {[ "net"%string := 2; "disk"%string := 2 ]}; calls := [] |}
  = step2 default_defines (OSet "disk" (AConst 9)) (OSet "net" (AConst 4))
      {| vars := {[ "net"%string := 2; "disk"%string := 2 ]}; calls := [] |}.
Proof.
  apply (SET_commute default_defines "net" "disk" 4 9). discriminate.
Defined.

Lemma clamp_val_mono d v w :
  DYNAMIC_LOG_LVL_MIN d <= DYNAMIC_LOG_LVL_MAX d ->
  v <= w -> clamp_val d v <= clamp_val d w.
Proof. intros Hle Hvw. rewrite !clamp_val_clamp by done. unfold clamp. lia. Qed.

(** X6: asking for a higher level never silences a call site: if a
    logging statement prints after [SET_LOG_SYSTEM_LVL(name, v)], it also
    prints after [SET_LOG_SYSTEM_LVL(name, w)] for every [w >= v]. *)
Theorem SET_higher_level_logs_more d name v w L a s s1 s2 :
  bounds_fit_char d ->
  mcl_h_error d = None ->
  v <= w ->
  step d (OSet name (AConst v)) s = Some s1 ->
  step d (OSet name (AConst w)) s = Some s2 ->
  invokes d (LOG L d name a) s1 (LOG_LVL L) a ->
  invokes d (LOG L d name a) s2 (LOG_LVL L) a.
Proof.
  intros Hfit Hok Hvw. apply mcl_h_ok in Hok.
  destruct (pp_true (DYNAMIC_LOG_LVL d)) eqn:Hdyn.
  - rewrite !step_OSet_const by done.
    destruct (vars s !! name) as [t |]; [| done].
    intros [= <-] [= <-]. rewrite LOG_eq, !invokes_LOG_at. simpl.
    rewrite !lookup_insert_eq, !to_log_lvl_t_clamp_val by done.
    intros (Hmax & Hchk). split; [done |]. intros _ Hmin.
    destruct (Hchk Hdyn Hmin) as (t0 & [= <-] & Hge).
    eexists. split; [done |].
    pose proof (clamp_val_mono d v w Hok Hvw). lia.
  - rewrite !step_OSet_disabled by done. by intros [= <-] [= <-].
Qed.

Lemma SET_higher_level_logs_more_witness :
  invokes default_defines (LOG MSG default_defines "example" "ready")
    {| vars := {[ "example"%string := 5 ]}; calls := [] |}
    (LOG_LVL MSG) "ready".
Proof.
  assert (bounds_fit_char default_defines) as Hfit
    by (vm_compute; split; discriminate).
  assert (3 <= LOG_LVL_ALL) as Hvw by (vm_compute; discriminate).
  apply (SET_higher_level_logs_more default_defines "example" 3 LOG_LVL_ALL
           MSG "ready"
           {| vars := {[ "example"%string := 2 ]}; calls := [] |}
           {| vars := {[ "example"%string := 3 ]}; calls := [] |}
           {| vars := {[ "example"%string := 5 ]}; calls := [] |}
           Hfit eq_refl Hvw).
  - vm_compute. reflexivity.
  - vm_compute. reflexivity.
  - eexists. split; reflexivity.
Defined.

Lemma eval_CLAMP_twice d e s s1 v :
  (forall k, paste_tail k e = k e) ->
  eval d e s = Some (v, s1) ->
  eval d e s1 = Some (v, s1) ->
  eval d (__LOG_LVL_CLAMP d e) s = Some (clamp_val d v, s1).
Proof.
  intros Hp He He1. unfold clamp_val, __LOG_LVL_CLAMP. rewrite !Hp.
  cbn [eval]. rewrite He.
  destruct (v >? DYNAMIC_LOG_LVL_MAX d); simpl; [done |].
  rewrite He1.
  destruct (v <? DYNAMIC_LOG_LVL_MIN d); simpl; done.
Qed.

(** X7: with dynamic adjustment enabled, in a header that compiles and
    whose bounds are both values of the storage type, a
    [SET_LOG_SYSTEM_LVL] used as the level of another one on defined
    systems, [SET_LOG_SYSTEM_LVL(a, SET_LOG_SYSTEM_LVL(b, v))], is sound
    although the clamp substitutes its argument up to three times: both
    cells end at [clamp v DYNAMIC_LOG_LVL_MIN DYNAMIC_LOG_LVL_MAX], which is
    also the value of the whole expression, and nothing else changes. *)
Theorem SET_nested d a b v s :
  pp_true (DYNAMIC_LOG_LVL d) = true ->
  mcl_h_error d = None ->
  bounds_fit_char d ->
  is_Some (vars s !! a) ->
  is_Some (vars s !! b) ->
  let c := clamp v (DYNAMIC_LOG_LVL_MIN d) (DYNAMIC_LOG_LVL_MAX d) in
  exists inner outer,
    SET_LOG_SYSTEM_LVL d b (EConst v) = Some inner
    /\ SET_LOG_SYSTEM_LVL d a inner = Some outer
    /\ eval d outer s
       = Some (c, {| vars := <[a := c]> (<[b := c]> (vars s));
                     calls := calls s |}).
Proof.
  intros Hdyn Hok Hfit [ta Ha] [tb Hb] c. apply mcl_h_ok in Hok.
  assert (to_log_lvl_t d (clamp_val d v) = c) as Hc.
  { rewrite to_log_lvl_t_clamp_val by done. by apply clamp_val_clamp. }
  assert (DYNAMIC_LOG_LVL_MIN d <= c <= DYNAMIC_LOG_LVL_MAX d) as Hrange
    by (unfold c, clamp; lia).
  unfold SET_LOG_SYSTEM_LVL. rewrite Hdyn.
  eexists _, _. split; [done |]. split; [done |].
  set (sb := {| vars := <[b := c]> (vars s); calls := calls s |}).
  assert (forall s0, is_Some (vars s0 !! b) ->
            eval d (EAssign b (__LOG_LVL_CLAMP d (EConst v))) s0
            = Some (c, {| vars := <[b := c]> (vars s0); calls := calls s0 |}))
    as Hinner.
  { intros s0 [t0 Ht0]. cbn [eval]. rewrite eval_CLAMP_const, Ht0.
    cbv zeta. by rewrite Hc. }
  cbn [eval].
  rewrite (eval_CLAMP_twice d _ s sb c); [| done | |].
  - assert (is_Some (vars sb !! a)) as [ta' Ha'].
    { simpl. destruct (decide (b = a)) as [-> | Hne].
      - rewrite lookup_insert_eq. by eexists.
      - rewrite lookup_insert_ne by done. by eexists. }
    rewrite Ha'. cbv zeta. rewrite clamp_val_id by done.
    rewrite to_log_lvl_t_id; [done |]. destruct Hfit. lia.
  - by apply Hinner.
  - rewrite Hinner.
    + subst sb. simpl. by rewrite insert_insert_eq.
    + subst sb. simpl. rewrite lookup_insert_eq. by eexists.
Qed.

Lemma SET_nested_witness :
  exists inner outer,
    SET_LOG_SYSTEM_LVL default_defines "disk" (EConst 9) = Some inner
    /\ SET_LOG_SYSTEM_LVL default_defines "net" inner = Some outer
    /\ eval default_defines outer
         {| vars := {[ "net"%string := 2; "disk"%string := 3 ]}; calls := [] |}
       = Some (5, {| vars := <[ "net"%string := 5 ]>
                               (<[ "disk"%string := 5 ]>
                                  {[ "net"%string := 2; "disk"%string := 3 ]});
                     calls := [] |}).
Proof.
  assert (bounds_fit_char default_defines) as Hfit
    by (vm_compute; split; discriminate).
  assert (is_Some (({[ "net"%string := 2; "disk"%string := 3 ]} : gmap string Z)
                     !! "net"%string)) as Ha by (exists 2; reflexivity).
  assert (is_Some (({[ "net"%string := 2; "disk"%string := 3 ]} : gmap string Z)
                     !! "disk"%string)) as Hb by (exists 3; reflexivity).
  exact (SET_nested default_defines "net" "disk" 9
           {| vars := {[ "net"%string := 2; "disk"%string := 3 ]}; calls := [] |}
           eq_refl eq_refl Hfit Ha Hb).
Defined.

(** ** The record of action calls *)

Lemma step_OSet_calls d name x s s' :
  step d (OSet name x) s = Some s' -> calls s' = calls s.
Proof.
  destruct (pp_true (DYNAMIC_LOG_LVL d)) eqn:Hdyn.
  - intros Hstep. by apply step_OSet_any in Hstep as [_ [v ->]].
  - rewrite step_OSet_disabled by done. by intros [= <-].
Qed.

(** X8: the record of action calls only grows, and only through logging
    statements: a use of the header either leaves it as it was, or is a
    [LOG_X] at a level up to [DYNAMIC_LOG_LVL_MAX] and appends one call, made
    with that call site's own level and arguments. *)
Theorem step_call_record d o s s' :
  step d o s = Some s' ->
  calls s' = calls s
  \/ exists L name a,
       o = OLog L name a
       /\ LOG_LVL L <= DYNAMIC_LOG_LVL_MAX d
       /\ calls s' = calls s ++ [(LOG_LVL L, a)].
Proof.
  destruct o as [L name a | name x | name].
  - unfold step. simpl. rewrite LOG_eq, exec_LOG_at.
    destruct (Z.geb_spec (DYNAMIC_LOG_LVL_MAX d) (LOG_LVL L)) as [Hmax | Hmax];
      [| intros [= <-]; by left].
    destruct (_ && _).
    + destruct (vars s !! name) as [t |]; [| done].
      destruct (t >=? LOG_LVL L); intros [= <-]; [right | by left].
      exists L, name, a. split; [done |]. split; [lia | done].
    + intros [= <-]. right. exists L, name, a.
      split; [done |]. split; [lia | done].
  - intros Hstep. left. by eapply step_OSet_calls.
  - unfold step. simpl.
    destruct (eval d (GET_LOG_SYSTEM_LVL d name) s) as [[v s1] |] eqn:He;
      [| done].
    apply eval_GET_state in He as ->. intros [= <-]. by left.
Qed.

Lemma step_call_record_witness :
  calls {| vars := {[ "example"%string := 3 ]};
           calls := [(2, "low disk"); (3, "ready")] |}
  = calls {| vars := {[ "example"%string := 3 ]}; calls := [(2, "low disk")] |}
  \/ exists L name a,
       OLog MSG "example" "ready" = OLog L name a
       /\ LOG_LVL L <= DYNAMIC_LOG_LVL_MAX default_defines
       /\ calls {| vars := {[ "example"%string := 3 ]};
                   calls := [(2, "low disk"); (3, "ready")] |}
          = calls {| vars := {[ "example"%string := 3 ]};
                     calls := [(2, "low disk")] |} ++ [(LOG_LVL L, a)].
Proof.
  apply (step_call_record default_defines (OLog MSG "example" "ready")
           {| vars := {[ "example"%string := 3 ]}; calls := [(2, "low disk")] |}
           {| vars := {[ "example"%string := 3 ]};
              calls := [(2, "low disk"); (3, "ready")] |}).
  reflexivity.
Defined.

Lemma LOG_ACTION_to_stderr_warn_or_lower c :
  LOG_ACTION_to_stderr (fst c) = warn_or_lower c.
Proof.
  unfold LOG_ACTION_to_stderr, warn_or_lower, LOG_LVL_FATAL, LOG_LVL_ERROR,
    LOG_LVL_WARN.
  destruct (Z.eqb_spec (fst c) 0); destruct (Z.eqb_spec (fst c) 1);
    destruct (Z.eqb_spec (fst c) 2); destruct (Z.leb_spec 0 (fst c));
    destruct (Z.leb_spec (fst c) 2); simpl; done || lia.
Qed.

Lemma printed_from cs : forall o,
  let p := fold_left (fun o c => LOG_ACTION (fst c) (snd c) o) cs o in
  stderr p = stderr o ++ map snd (List.filter warn_or_lower cs)
  /\ stdout p
     = stdout o ++ map snd (List.filter (fun c => negb (warn_or_lower c)) cs).
Proof.
  induction cs as [| c cs IH]; intros o; simpl.
  - by rewrite !app_nil_r.
  - destruct (IH (LOG_ACTION (fst c) (snd c) o)) as [-> ->].
    unfold LOG_ACTION. rewrite LOG_ACTION_to_stderr_warn_or_lower.
    destruct (warn_or_lower c); simpl; by rewrite <- ?app_assoc.
Qed.

(** X9: under the default [LOG_ACTION] every call prints to exactly one
    stream and the order of calls is kept: [stderr] receives the messages
    of the calls at levels [LOG_LVL_FATAL] to [LOG_LVL_WARN], [stdout] those
    of all other calls (any other integer level included), each in the
    order the calls were made. *)
Theorem printed_routes cs :
  stderr (printed cs) = map snd (List.filter warn_or_lower cs)
  /\ stdout (printed cs)
     = map snd (List.filter (fun c => negb (warn_or_lower c)) cs)
  /\ (length (stderr (printed cs)) + length (stdout (printed cs)))%nat
     = length cs.
Proof.
  destruct (printed_from cs {| stderr := []; stdout := [] |}) as [He Ho].
  unfold printed. rewrite He, Ho. simpl. split; [done |]. split; [done |].
  rewrite !length_map. clear. induction cs as [| c cs IH]; [done |].
  simpl. destruct (warn_or_lower c); simpl; lia.
Qed.

(** ** Which cells exist *)

Lemma link_calls d ts : forall m s, link d ts m = Built s -> calls s = [].
Proof.
  induction ts as [| t ts IH]; intros m s; simpl.
  - by intros [= <-].
  - destruct t as [| n | n init]; [by apply IH | by apply IH |].
    destruct (m !! n); [done |].
    destruct (eval d init no_cells) as [[x s1] |]; [| done]. by apply IH.
Qed.

Lemma link_cells_inv d items name : forall m s,
  link d (map (expand_item d) items) m = Built s ->
  is_Some (vars s !! name) ->
  is_Some (m !! name) \/ exists lvl, In (IDefine name lvl) items.
Proof.
  induction items as [| i items IH]; intros m s.
  - simpl. intros [= <-]. by left.
  - intros Hl Hs.
    apply link_item in Hl as [Hl | (n & x & y & -> & _ & _ & _ & Hl)].
    + destruct (IH _ _ Hl Hs) as [? | [lvl ?]];
        [by left | right; exists lvl; by right].
    + destruct (IH _ _ Hl Hs) as [Hm | [lvl ?]];
        [| right; exists lvl; by right].
      revert Hm. rewrite lookup_insert. case_decide as Heq.
      * subst n. intros _. right. exists x. by left.
      * by left.
Qed.

(** X10: with dynamic adjustment enabled, a program that builds starts with
    an empty record of action calls and with a threshold cell for exactly
    the systems it defines with [DEFINE_LOG_SYSTEM]; [DECLARE_LOG_SYSTEM]
    alone gives a system no cell. *)
Theorem build_cells d items s name :
  pp_true (DYNAMIC_LOG_LVL d) = true ->
  build d items = Built s ->
  calls s = []
  /\ (is_Some (vars s !! name) <-> exists lvl, In (IDefine name lvl) items).
Proof.
  intros Hdyn. unfold build. destruct (mcl_h_error d); [done |]. intros Hl.
  split; [by eapply link_calls |]. split.
  - intros Hs. destruct (link_cells_inv _ _ _ _ _ Hl Hs) as [Hm | ?]; [| done].
    rewrite lookup_empty in Hm. by destruct Hm.
  - intros [lvl Hin].
    destruct (link_defined_some _ _ _ _ _ _ Hdyn Hl Hin) as (y & s1 & _ & ->).
    by eexists.
Qed.

Lemma build_cells_witness :
  is_Some (({[ "example"%string := 2 ]} : gmap string Z) !! "other"%string)
  <-> exists lvl,
        In (IDefine "other" lvl)
           [IDeclare "other"; IDefine "example" (AConst LOG_LVL_ERROR)].
Proof.
  exact (proj2 (build_cells default_defines
                  [IDeclare "other"; IDefine "example" (AConst LOG_LVL_ERROR)]
                  {| vars := {[ "example"%string := 2 ]}; calls := [] |}
                  "other" eq_refl eq_refl)).
Defined.

Lemma link_disabled d items :
  pp_true (DYNAMIC_LOG_LVL d) = false ->
  forall m, link d (map (expand_item d) items) m
            = Built {| vars := m; calls := [] |}.
Proof.
  intros Hdyn. induction items as [| i items IH]; intros m; [done |].
  destruct i as [n | n l]; simpl;
    unfold DECLARE_LOG_SYSTEM, DEFINE_LOG_SYSTEM; rewrite Hdyn; apply IH.
Qed.

Lemma step_disabled_total d o s :
  pp_true (DYNAMIC_LOG_LVL d) = false ->
  exists s', step d o s = Some s' /\ vars s' = vars s.
Proof.
  intros Hdyn. destruct o as [L name a | name x | name].
  - unfold step. simpl. rewrite LOG_eq, exec_LOG_at, Hdyn. simpl.
    destruct (_ >=? _); by eexists.
  - rewrite step_OSet_disabled by done. by eexists.
  - unfold step. simpl. unfold GET_LOG_SYSTEM_LVL. rewrite Hdyn. simpl.
    by eexists.
Qed.

(** X11: with dynamic adjustment disabled the header keeps no state and
    names no cell: every program builds (whatever it declares or defines,
    even twice), no reachable state has a threshold cell, and every use of
    the header runs, also on a system that was never declared or defined. *)
Theorem disabled_keeps_no_state d :
  pp_true (DYNAMIC_LOG_LVL d) = false ->
  mcl_h_error d = None ->
  (forall items, build d items = Built no_cells)
  /\ (forall s, reachable d s -> vars s = ∅)
  /\ (forall o s, is_Some (step d o s)).
Proof.
  intros Hdyn Hok.
  assert (forall items, build d items = Built no_cells) as Hb.
  { intros items. unfold build. rewrite Hok. by apply link_disabled. }
  split; [done |]. split.
  - induction 1 as [items s Hbs | o s s' Hr IH Hstep].
    + rewrite Hb in Hbs. by injection Hbs as <-.
    + destruct (step_disabled_total d o s Hdyn) as (s1 & Hs1 & Hv).
      rewrite Hstep in Hs1. injection Hs1 as <-. by rewrite Hv.
  - intros o s. destruct (step_disabled_total d o s Hdyn) as (s1 & -> & _).
    by eexists.
Qed.

Lemma disabled_keeps_no_state_witness :
  build static_defines
    [IDefine "example" (AConst LOG_LVL_ERROR); IDefine "example" (AConst LOG_LVL_MSG)]
  = Built no_cells.
Proof.
  apply (disabled_keeps_no_state static_defines); reflexivity.
Defined.

(** ** A bound the storage type cannot hold *)

(** X14: where [char] is unsigned and [DYNAMIC_LOG_LVL_MIN] is
    [LOG_LVL_NONE], asking for the lowest level does the opposite of
    silencing: [SET_LOG_SYSTEM_LVL(name, v)] with [v <= LOG_LVL_NONE] stores
    255 in the cell, and from then on every call site of that system at a
    level up to [DYNAMIC_LOG_LVL_MAX] prints. *)
Theorem NONE_bound_on_unsigned_char_prints_all d name v s L a :
  char_unsigned d = true ->
  pp_true (DYNAMIC_LOG_LVL d) = true ->
  DYNAMIC_LOG_LVL_MIN d = LOG_LVL_NONE ->
  mcl_h_error d = None ->
  is_Some (vars s !! name) ->
  v <= LOG_LVL_NONE ->
  LOG_LVL L <= DYNAMIC_LOG_LVL_MAX d ->
  exists s',
    step d (OSet name (AConst v)) s = Some s'
    /\ vars s' !! name = Some 255
    /\ invokes d (LOG L d name a) s' (LOG_LVL L) a.
Proof.
  intros Hu Hdyn Hmin Hok [t Ht] Hv HL. apply mcl_h_ok in Hok.
  rewrite step_OSet_const, Ht by done. eexists. split; [done |].
  assert (to_log_lvl_t d (clamp_val d v) = 255) as Hc.
  { unfold clamp_val. rewrite Hmin in *. unfold LOG_LVL_NONE in *.
    destruct (Z.gtb_spec v (DYNAMIC_LOG_LVL_MAX d)); [lia |].
    destruct (Z.ltb_spec v (-1)).
    - unfold to_log_lvl_t. by rewrite Hu.
    - replace v with (-1) by lia. unfold to_log_lvl_t. by rewrite Hu. }
  unfold set_cell. rewrite Hc. simpl. rewrite lookup_insert_eq.
  split; [done |].
  rewrite LOG_eq, invokes_LOG_at. split; [done |]. intros _ _.
  exists 255. simpl. rewrite lookup_insert_eq. split; [done |].
  destruct L; vm_compute; discriminate.
Qed.

(** An unsigned-[char] build with [-DDYNAMIC_LOG_LVL_MIN=LOG_LVL_NONE]. *)
Lemma NONE_bound_on_unsigned_char_prints_all_witness :
  exists s',
    step {| D_DYNAMIC_LOG_LVL := None; D_DYNAMIC_LOG_LVL_MAX := None;
            D_DYNAMIC_LOG_LVL_MIN := Some LOG_LVL_NONE; char_unsigned := true |}
         (OSet "example" (AConst LOG_LVL_NONE))
         {| vars := {[ "example"%string := 2 ]}; calls := [] |} = Some s'
    /\ vars s' !! "example"%string = Some 255
    /\ invokes {| D_DYNAMIC_LOG_LVL := None; D_DYNAMIC_LOG_LVL_MAX := None;
                  D_DYNAMIC_LOG_LVL_MIN := Some LOG_LVL_NONE;
                  char_unsigned := true |}
         (LOG VERBOSE {| D_DYNAMIC_LOG_LVL := None; D_DYNAMIC_LOG_LVL_MAX := None;
                         D_DYNAMIC_LOG_LVL_MIN := Some LOG_LVL_NONE;
                         char_unsigned := true |} "example" "details")
         s' (LOG_LVL VERBOSE) "details".
Proof.
  apply (NONE_bound_on_unsigned_char_prints_all
           {| D_DYNAMIC_LOG_LVL := None; D_DYNAMIC_LOG_LVL_MAX := None;
              D_DYNAMIC_LOG_LVL_MIN := Some LOG_LVL_NONE; char_unsigned := true |}
           "example" LOG_LVL_NONE
           {| vars := {[ "example"%string := 2 ]}; calls := [] |}
           VERBOSE "details").
  - reflexivity.
  - reflexivity.
  - reflexivity.
  - reflexivity.
  - exists 2. reflexivity.
  - vm_compute. discriminate.
  - vm_compute. discriminate.
Defined.

(** ** Call sites at or below the lower bound *)



(** ** A conditional written without parentheses as the level *)

(** X16: with dynamic adjustment enabled,
    [SET_LOG_SYSTEM_LVL(name, c ? a : b)] on integer constants clamps only
    the last operand: when [c] is not zero the cell receives [a] as it is
    (converted to the storage type), and when [c] is zero it receives the
    clamp of [b]. *)
Theorem SET_bare_conditional d name c a b s :
  pp_true (DYNAMIC_LOG_LVL d) = true ->
  is_Some (vars s !! name) ->
  step d (OSet name (ACond (AConst c) (AConst a) (AConst b))) s
  = Some {| vars := <[name := to_log_lvl_t d
                               (if c =? 0 then clamp_val d b else a)]>
                      (vars s);
            calls := calls s |}.
Proof.
  intros Hdyn [t Ht].
  unfold step, expand_op, SET_LOG_SYSTEM_LVL. rewrite Hdyn.
  unfold clamp_val. cbn [arg_expr __LOG_LVL_CLAMP paste_tail exec eval].
  destruct (c =? 0); simpl.
  - destruct (b >? DYNAMIC_LOG_LVL_MAX d); simpl; [by rewrite Ht |].
    destruct (b <? DYNAMIC_LOG_LVL_MIN d); simpl; by rewrite Ht.
  - by rewrite Ht.
Qed.

Lemma SET_bare_conditional_witness :
  step default_defines
    (OSet "example" (ACond (AConst 1) (AConst 7) (AConst 0)))
    {| vars := {[ "example"%string := 2 ]}; calls := [] |}
  = Some {| vars := <[ "example"%string := 7 ]> {[ "example"%string := 2 ]};
            calls := [] |}.
Proof.
  assert (is_Some (({[ "example"%string := 2 ]} : gmap string Z) !! "example"%string))
    as Hdef by (exists 2; reflexivity).
  exact (SET_bare_conditional default_defines "example" 1 7 0
           {| vars := {[ "example"%string := 2 ]}; calls := [] |}
           eq_refl Hdef).
Defined.
